(** * MessageHandler: request/response codec for DIN status queries

    A shallow embedding of [message_handler.py] and the properties of its
    three functions:

    - [generate_request_message]            (request builder),
    - [parse_din_status_response]           (response parser),
    - [din_status_to_32bit_signed_integer]  (status interpreter).

    Python integers are unbounded, so they are modelled by [Z]; the bit
    operators [&], [|], [<<] are [Z.land], [Z.lor], [Z.shiftl], which agree
    with Python on negative numbers too (infinite two's complement).
    Python [str] values are lists of characters.  Raising an exception is
    modelled by the [Raise] constructor of [result]. *)

From Stdlib Require Import String Ascii ZArith List Bool Lia.
From Stdlib Require Import DecimalString.
Import ListNotations.

Local Open Scope Z_scope.

(** ** Exceptions and the error monad *)

(** Every exception the module can raise is a [ValueError]; the constructor
    records where it comes from. *)
Inductive exn : Set :=
| ValueError_command_too_long   (* raise at line 33 *)
| ValueError_array_too_long     (* raise at line 83 *)
| ValueError_invalid_literal    (* int(s, base) on a string it cannot parse *)
| ValueError_negative_shift.    (* a << b with b < 0 *)

Inductive result (A : Type) : Type :=
| Ok (a : A)
| Raise (e : exn).

Arguments Ok {A} a.
Arguments Raise {A} e.

Definition bind {A B : Type} (m : result A) (k : A -> result B) : result B :=
  match m with
  | Ok a => k a
  | Raise e => Raise e
  end.

Notation "x <- m ;; k" := (bind m (fun x => k))
  (at level 61, m at next level, right associativity).

Definition returns {A : Type} (m : result A) : Prop := exists a, m = Ok a.
Definition raises {A : Type} (m : result A) : Prop := exists e, m = Raise e.

(** ** Python built-ins used by the module *)

Module Py.

Definition str := list ascii.

(** A string literal. *)
Definition lit (s : string) : str := list_ascii_of_string s.

Definition len {A : Type} (l : list A) : Z := Z.of_nat (length l).

(** Slice bounds: a negative index counts from the end, and the result is
    clamped to the sequence. *)
Definition clamp_index (n i : Z) : Z :=
  let i' := if i <? 0 then i + n else i in
  Z.max 0 (Z.min n i').

(** [s[lo:hi]] *)
Definition slice {A : Type} (lo hi : Z) (s : list A) : list A :=
  let lo' := clamp_index (len s) lo in
  let hi' := clamp_index (len s) hi in
  firstn (Z.to_nat (hi' - lo')) (skipn (Z.to_nat lo') s).

(** [s[lo:]] *)
Definition slice_from {A : Type} (lo : Z) (s : list A) : list A :=
  skipn (Z.to_nat (clamp_index (len s) lo)) s.

(** Binary digits of a positive number, most significant first. *)
Fixpoint bin_pos (p : positive) (acc : str) : str :=
  match p with
  | xH => "1"%char :: acc
  | xO p' => bin_pos p' ("0"%char :: acc)
  | xI p' => bin_pos p' ("1"%char :: acc)
  end.

(** [bin(z)] *)
Definition bin (z : Z) : str :=
  match z with
  | Z0 => lit "0b0"
  | Zpos p => lit "0b" ++ bin_pos p []
  | Zneg p => lit "-0b" ++ bin_pos p []
  end.

(** [s.zfill(width)]: zeros are inserted after a leading sign. *)
Definition zfill (width : Z) (s : str) : str :=
  let pad := repeat "0"%char (Z.to_nat (width - len s)) in
  match s with
  | c :: s' =>
      if (Ascii.eqb c "+" || Ascii.eqb c "-")%bool
      then c :: pad ++ s'
      else pad ++ s
  | [] => pad
  end.

Definition bit_of_ascii (c : ascii) : option Z :=
  if Ascii.eqb c "0" then Some 0
  else if Ascii.eqb c "1" then Some 1
  else None.

Fixpoint int2_digits (acc : Z) (s : str) : result Z :=
  match s with
  | [] => Ok acc
  | c :: s' =>
      match bit_of_ascii c with
      | Some b => int2_digits (2 * acc + b) s'
      | None => Raise ValueError_invalid_literal
      end
  end.

(** [int(s, 2)] on the strings the module hands to it: a non-empty run of
    the characters 0 and 1 is read as an unsigned binary numeral, and the
    empty string is rejected with a [ValueError].  Python also accepts
    surrounding blanks, a sign, a [0b] prefix and single underscores between
    digits; those strings are outside the domain of this model (it rejects
    them), and every statement below that depends on [int_base2] is about
    strings of 0 and 1 only. *)
Definition int_base2 (s : str) : result Z :=
  match s with
  | [] => Raise ValueError_invalid_literal
  | _ :: _ => int2_digits 0 s
  end.

(** [int(c)] for a one-character ASCII string [c]: the digits 0 to 9 are
    accepted, every other ASCII character is rejected.  Python also accepts
    the decimal digits of other scripts; they are not ASCII characters, and
    the statements that depend on which characters are rejected assume an
    ASCII frame. *)
Definition int_of_char (c : ascii) : result Z :=
  let n := Z.of_N (N_of_ascii c) in
  if (48 <=? n) && (n <=? 57) then Ok (n - 48)
  else Raise ValueError_invalid_literal.

(** [str(z)] for an integer: its decimal numeral. *)
Definition str_of_int (z : Z) : str :=
  list_ascii_of_string (NilZero.string_of_int (Z.to_int z)).

(** [''.join(l)] *)
Definition join (l : list str) : str := concat l.

(** [int.from_bytes(b, byteorder='big')] *)
Definition int_from_bytes_big (b : str) : Z :=
  fold_left (fun acc c => acc * 256 + Z.of_N (N_of_ascii c)) b 0.

(** [a << b] *)
Definition lshift (a b : Z) : result Z :=
  if b <? 0 then Raise ValueError_negative_shift else Ok (Z.shiftl a b).

(** [for x in l] collecting [f x], stopping at the first exception. *)
Fixpoint map_result {A B : Type} (f : A -> result B) (l : list A)
  : result (list B) :=
  match l with
  | [] => Ok []
  | x :: l' =>
      y <- f x ;;
      ys <- map_result f l' ;;
      Ok (y :: ys)
  end.

End Py.

Import Py.

(** ** The module's functions *)

(** [generate_request_message], lines 11-49. *)
Definition generate_request_message (command_number : Z) : result str :=
  let message_id := lit "RQ" in
  let int_message_id := int_from_bytes_big message_id in
  let bin_command_number := zfill 8 (slice_from 2 (bin command_number)) in
  let num_bits := len bin_command_number in
  if 32 <? num_bits then Raise ValueError_command_too_long
  else
    let command_number_8bit := Z.land command_number 0xFF in
    let int_rep_0to2_bytes :=
      Z.lor (Z.shiftl int_message_id 8) command_number_8bit in
    let bin_rep_0to2_bytes := zfill 24 (slice_from 2 (bin int_rep_0to2_bytes)) in
    b0 <- int_base2 (slice 0 8 bin_rep_0to2_bytes) ;;
    b1 <- int_base2 (slice 8 16 bin_rep_0to2_bytes) ;;
    b2 <- int_base2 (slice 16 24 bin_rep_0to2_bytes) ;;
    let int_rep_3rd_byte := b0 + b1 + b2 in
    let int_rep_0to3_bytes :=
      Z.lor (Z.shiftl int_rep_0to2_bytes 8) int_rep_3rd_byte in
    let bin_rep_0to3_bytes := zfill 32 (slice_from 2 (bin int_rep_0to3_bytes)) in
    Ok bin_rep_0to3_bytes.

(** [parse_din_status_response], lines 51-69. *)
Definition parse_din_status_response (response_message : str)
  : result (list Z) :=
  byte_lenght_of_din_status <- int_base2 (slice 24 40 response_message) ;;
  let starting_index_of_din_status := 40 in
  let din_status :=
    slice starting_index_of_din_status
          (starting_index_of_din_status + byte_lenght_of_din_status * 8)
          response_message in
  array_din_status <- map_result int_of_char din_status ;;
  Ok array_din_status.

(** [din_status_to_32bit_signed_integer], lines 71-106. *)
Definition din_status_to_32bit_signed_integer (response_message : list Z)
  : result Z :=
  if 32 <? len response_message then Raise ValueError_array_too_long
  else
    let bit_string := join (map str_of_int response_message) in
    unsigned_value <- int_base2 bit_string ;;
    let num_bits := len response_message in
    sign_mask <- lshift 1 (num_bits - 1) ;;
    signed_value <-
      (if Z.land unsigned_value sign_mask =? 0
       then Ok unsigned_value
       else
         modulus <- lshift 1 num_bits ;;
         Ok (unsigned_value - modulus)) ;;
    let signed_value_32bit := Z.land signed_value 0xFFFFFFFF in
    if 0x80000000 <=? signed_value_32bit
    then Ok (signed_value_32bit - 0x100000000)
    else Ok signed_value_32bit.

(** ** Vocabulary of the statements *)

(** A frame is a string of the characters 0 and 1. *)
Definition bit_char (c : ascii) : bool :=
  (Ascii.eqb c "0" || Ascii.eqb c "1")%bool.

Definition binary (s : str) : bool := forallb bit_char s.

(** A DIN status array is a list over {0,1}. *)
Definition bit_int (b : Z) : bool := ((b =? 0) || (b =? 1))%bool.

Definition bits01 (l : list Z) : bool := forallb bit_int l.

(** The integer a bit character stands for. *)
Definition char_bit (c : ascii) : Z := if Ascii.eqb c "1" then 1 else 0.

(** Unsigned value of a bit string, most significant bit first. *)
Definition unsigned_of_chars (s : str) : Z :=
  fold_left (fun acc c => 2 * acc + char_bit c) s 0.

(** Unsigned value of a bit array, most significant bit first. *)
Definition unsigned_of_bits (l : list Z) : Z :=
  fold_left (fun acc b => 2 * acc + b) l 0.

(** Byte [k] of a frame: the bits [8k, 8k+8) read as an unsigned number. *)
Definition frame_byte (k : Z) (frame : str) : result Z :=
  int_base2 (slice (8 * k) (8 * k + 8) frame).

(** The declared payload length: the 16 bits [24, 40) read as a number. *)
Definition declared_length (frame : str) : Z :=
  unsigned_of_chars (slice 24 40 frame).

(** The response layout as section 6 of the specification words it:
    [16-bit tag][8-bit echoed command][8-bit length N][8N-bit payload]. *)
Definition sec6_frame (tag cmd length_byte payload : str) : str :=
  tag ++ cmd ++ length_byte ++ payload.

Definition sec6_layout (tag cmd length_byte payload : str) : Prop :=
  binary (sec6_frame tag cmd length_byte payload) = true /\
  len tag = 16 /\ len cmd = 8 /\ len length_byte = 8 /\
  len payload = 8 * unsigned_of_chars length_byte.

(** The layout the parser reads: the length field is the two bytes at
    bits [24, 40) and the payload starts at bit 40; anything after the
    payload is ignored. *)
Definition wire_frame (tag cmd length_field payload rest : str) : str :=
  tag ++ cmd ++ length_field ++ payload ++ rest.

(** The width-w two's-complement value of a bit array of length w:
    the unsigned value, less 2^w when the leading bit is set. *)
Definition twos_complement (bits : list Z) : Z :=
  let w := len bits in
  let u := unsigned_of_bits bits in
  if hd 0 bits =? 1 then u - 2 ^ w else u.

(** Direct 32-bit sign extension: the leading bit of the array is copied
    into the bits w..31 of a 32-bit word, and the word is read as a signed
    32-bit number. *)
Definition sign_extend_32 (bits : list Z) : Z :=
  let w := len bits in
  let u := unsigned_of_bits bits in
  let word :=
    if hd 0 bits =? 1 then Z.lor u (Z.shiftl (Z.ones (32 - w)) w) else u in
  if Z.testbit word 31 then word - 2 ^ 32 else word.

(** The two-stage computation as the function's docstring describes it:
    subtract 2^w when the leading bit is set, then mask with 0xFFFFFFFF and
    subtract 2^32 when the masked value is at least 2^31. *)
Definition two_stage_value (bits : list Z) : Z :=
  let w := len bits in
  let u := unsigned_of_bits bits in
  let signed := if hd 0 bits =? 1 then u - 2 ^ w else u in
  let masked := Z.land signed 0xFFFFFFFF in
  if 0x80000000 <=? masked then masked - 0x100000000 else masked.

(** What the builder computes from the command byte, once the length check
    of line 32 has passed (lines 39-49). *)
Definition frame_of_command_byte (command_number_8bit : Z) : result str :=
  let int_message_id := int_from_bytes_big (lit "RQ") in
  let int_rep_0to2_bytes :=
    Z.lor (Z.shiftl int_message_id 8) command_number_8bit in
  let bin_rep_0to2_bytes := zfill 24 (slice_from 2 (bin int_rep_0to2_bytes)) in
  b0 <- int_base2 (slice 0 8 bin_rep_0to2_bytes) ;;
  b1 <- int_base2 (slice 8 16 bin_rep_0to2_bytes) ;;
  b2 <- int_base2 (slice 16 24 bin_rep_0to2_bytes) ;;
  let int_rep_3rd_byte := b0 + b1 + b2 in
  let int_rep_0to3_bytes :=
    Z.lor (Z.shiftl int_rep_0to2_bytes 8) int_rep_3rd_byte in
  Ok (zfill 32 (slice_from 2 (bin int_rep_0to3_bytes))).

(** The 32-bit value of the frame, with the checksum sum OR'd in whole. *)
Definition packed_frame (c : Z) : Z :=
  Z.lor (Z.lor (Z.shiftl 0x5251 16) (Z.shiftl c 8)) (0xA3 + c).

(** The byte found at bits 16-23 of the frame: the command byte with the
    carry of the checksum sum OR'd into its lowest bit. *)
Definition byte2_of_frame (c : Z) : Z :=
  if 0x5D <=? c then Z.lor c 1 else c.

Definition command_bytes : list Z := map Z.of_nat (seq 0 256).

Definition frame_checks (c : Z) : bool :=
  match frame_of_command_byte c with
  | Ok frame =>
      match int_base2 frame, frame_byte 2 frame, frame_byte 3 frame with
      | Ok v, Ok b2, Ok b3 =>
          (len frame =? 32) && binary frame &&
          (v =? packed_frame c) &&
          (b2 =? byte2_of_frame c) &&
          (b3 =? Z.land (0x52 + 0x51 + c) 0xFF) &&
          (Z.land v 0xFF =? b3) &&
          Bool.eqb (Z.testbit (0xA3 + c) 8) (0x5D <=? c)
      | _, _, _ => false
      end
  | Raise _ => false
  end.

(** The ASCII characters [int(c)] accepts, and the integer each stands
    for. *)
Definition digit_char (c : ascii) : bool :=
  let n := Z.of_N (N_of_ascii c) in (48 <=? n) && (n <=? 57).

Definition digit_value (c : ascii) : Z := Z.of_N (N_of_ascii c) - 48.

(** An ASCII character has a code point below 128; an ASCII string has
    only such characters. *)
Definition ascii_char (c : ascii) : bool := Z.of_N (N_of_ascii c) <? 128.

Definition ascii_only (s : str) : bool := forallb ascii_char s.

(** The bitwise complement of a bit array. *)
Definition invert (bits : list Z) : list Z := map (fun b => 1 - b) bits.

(** The command numbers the length check of line 32 lets through. *)
Definition accepted (n : Z) : Prop := - 2 ^ 31 < n < 2 ^ 32.

(** The four bytes of the frame built from a command byte: the tag is
    intact, and the checksum byte matches the three bytes before it unless
    the carry of the sum has changed byte 2. *)
Definition frame_bytes_check (c : Z) : bool :=
  match frame_of_command_byte c with
  | Ok frame =>
      match frame_byte 0 frame, frame_byte 1 frame,
            frame_byte 2 frame, frame_byte 3 frame with
      | Ok b0, Ok b1, Ok b2, Ok b3 =>
          (b0 =? 0x52) && (b1 =? 0x51) &&
          Bool.eqb (b3 =? Z.land (b0 + b1 + b2) 0xFF)
                   ((c <? 0x5D) || Z.odd c)
      | _, _, _, _ => false
      end
  | Raise _ => false
  end.

(** The response parser followed by the status interpreter. *)
Definition parse_then_interpret (response_message : str) : result Z :=
  array_din_status <- parse_din_status_response response_message ;;
  din_status_to_32bit_signed_integer array_din_status.

(** ** Slices with non-negative bounds *)

Section Slices.
Context {A : Type}.
Implicit Types (s : list A) (lo hi : Z).

Lemma len_nonneg s : 0 <= len s.
Proof. unfold len. lia. Qed.

Lemma clamp_index_nonneg n i : 0 <= n -> 0 <= i -> clamp_index n i = Z.min n i.
Proof.
  intros Hn Hi. unfold clamp_index.
  destruct (Z.ltb_spec i 0); lia.
Qed.

Lemma slice_nonneg lo hi s :
  0 <= lo <= hi ->
  slice lo hi s = firstn (Z.to_nat (hi - lo)) (skipn (Z.to_nat lo) s).
Proof.
  intros [Hlo Hhi]. unfold slice.
  pose proof (len_nonneg s) as Hn.
  rewrite !clamp_index_nonneg by lia.
  destruct (Z_le_gt_dec (len s) lo) as [Hout | Hin].
  - rewrite !skipn_all2 by (unfold len in *; lia).
    now rewrite !firstn_nil.
  - replace (Z.min (len s) lo) with lo by lia.
    destruct (Z_le_gt_dec hi (len s)) as [Hfit | Hshort].
    + now replace (Z.min (len s) hi) with hi by lia.
    + replace (Z.min (len s) hi) with (len s) by lia.
      rewrite !firstn_all2; trivial;
        rewrite length_skipn; unfold len in *; lia.
Qed.

Lemma slice_from_nonneg lo s :
  0 <= lo <= len s -> slice_from lo s = skipn (Z.to_nat lo) s.
Proof.
  intros H. unfold slice_from.
  rewrite clamp_index_nonneg by lia.
  now replace (Z.min (len s) lo) with lo by lia.
Qed.

Lemma len_slice lo hi s :
  0 <= lo <= hi ->
  len (slice lo hi s) = Z.min (hi - lo) (Z.max 0 (len s - lo)).
Proof.
  intros H. rewrite slice_nonneg by trivial.
  unfold len. rewrite length_firstn, length_skipn. lia.
Qed.

Lemma nth_slice lo hi s (i : nat) (d : A) :
  0 <= lo <= hi ->
  Z.of_nat i < len (slice lo hi s) ->
  nth i (slice lo hi s) d = nth (Z.to_nat lo + i) s d.
Proof.
  intros H Hi. rewrite len_slice in Hi by trivial.
  rewrite slice_nonneg by trivial.
  rewrite nth_firstn, nth_skipn.
  destruct (Nat.ltb_spec i (Z.to_nat (hi - lo))); [reflexivity | lia].
Qed.

Lemma slice_app_skip (p s : list A) lo hi :
  0 <= lo <= hi -> len p <= lo ->
  slice lo hi (p ++ s) = slice (lo - len p) (hi - len p) s.
Proof.
  intros H Hp. rewrite !slice_nonneg by lia.
  replace (hi - len p - (lo - len p)) with (hi - lo) by lia.
  f_equal. rewrite skipn_app.
  rewrite skipn_all2 by (unfold len in *; lia). simpl.
  f_equal. unfold len in *. lia.
Qed.

Lemma slice_app_exact (p s : list A) hi :
  len p = hi -> slice 0 hi (p ++ s) = p.
Proof.
  intros Hp. pose proof (len_nonneg p).
  rewrite slice_nonneg by lia. simpl.
  rewrite Z.sub_0_r, <- Hp. unfold len. rewrite Nat2Z.id.
  rewrite firstn_app, Nat.sub_diag, firstn_all. simpl.
  apply app_nil_r.
Qed.
End Slices.

(** ** Bit strings and [int(s, 2)] *)

Lemma bit_char_cases c :
  bit_char c = true -> c = "0"%char \/ c = "1"%char.
Proof.
  unfold bit_char. intros H.
  apply orb_true_iff in H as [H | H]; apply Ascii.eqb_eq in H; auto.
Qed.

Lemma binary_cons c s :
  binary (c :: s) = true <-> bit_char c = true /\ binary s = true.
Proof. unfold binary. simpl. apply andb_true_iff. Qed.

Lemma binary_app s t :
  binary (s ++ t) = true <-> binary s = true /\ binary t = true.
Proof. unfold binary. rewrite forallb_app. apply andb_true_iff. Qed.

Lemma binary_firstn n s : binary s = true -> binary (firstn n s) = true.
Proof.
  intros H. rewrite <- (firstn_skipn n s) in H.
  now apply binary_app in H.
Qed.

Lemma binary_skipn n s : binary s = true -> binary (skipn n s) = true.
Proof.
  intros H. rewrite <- (firstn_skipn n s) in H.
  now apply binary_app in H.
Qed.

Lemma binary_slice lo hi s :
  binary s = true -> binary (slice lo hi s) = true.
Proof. intros H. unfold slice. now apply binary_firstn, binary_skipn. Qed.

Lemma bit_of_ascii_binary c :
  bit_char c = true -> bit_of_ascii c = Some (char_bit c).
Proof. intros H. destruct (bit_char_cases c H); subst; reflexivity. Qed.

Lemma int2_digits_binary s :
  binary s = true ->
  forall acc,
    int2_digits acc s = Ok (fold_left (fun a c => 2 * a + char_bit c) s acc).
Proof.
  induction s as [| c s IH]; intros Hs acc; cbn [int2_digits fold_left].
  - reflexivity.
  - apply binary_cons in Hs as [Hc Hs].
    rewrite (bit_of_ascii_binary c Hc). now apply IH.
Qed.

Lemma int_base2_binary s :
  binary s = true -> 0 < len s -> int_base2 s = Ok (unsigned_of_chars s).
Proof.
  intros Hs Hlen. destruct s as [| c s].
  - unfold len in Hlen. simpl in Hlen. lia.
  - unfold int_base2, unsigned_of_chars. now apply int2_digits_binary.
Qed.

Lemma int_base2_empty s : len s = 0 -> int_base2 s = Raise ValueError_invalid_literal.
Proof.
  destruct s; [reflexivity | unfold len; simpl; lia].
Qed.

Lemma char_bit_range c : 0 <= char_bit c <= 1.
Proof. unfold char_bit. destruct (Ascii.eqb c "1"); lia. Qed.

Lemma fold_chars_nonneg s :
  forall acc, 0 <= acc ->
    0 <= fold_left (fun a c => 2 * a + char_bit c) s acc.
Proof.
  induction s as [| c s IH]; intros acc Hacc; cbn [fold_left]; trivial.
  apply IH. pose proof (char_bit_range c). lia.
Qed.

Lemma unsigned_of_chars_nonneg s : 0 <= unsigned_of_chars s.
Proof. apply fold_chars_nonneg. lia. Qed.

Lemma int_of_char_binary c :
  bit_char c = true -> int_of_char c = Ok (char_bit c).
Proof. intros H. destruct (bit_char_cases c H); subst; reflexivity. Qed.

Lemma map_result_binary s :
  binary s = true -> map_result int_of_char s = Ok (map char_bit s).
Proof.
  induction s as [| c s IH]; intros Hs; simpl.
  - reflexivity.
  - apply binary_cons in Hs as [Hc Hs].
    now rewrite (int_of_char_binary c Hc), (IH Hs).
Qed.

Lemma char_bit_is_bit s : bits01 (map char_bit s) = true.
Proof.
  induction s as [| c s IH]; simpl; trivial.
  unfold bits01 in *. simpl. rewrite IH.
  unfold char_bit. now destruct (Ascii.eqb c "1").
Qed.

(** ** The response parser on bit strings *)

(** The parser reads its length field as soon as the frame has a 25th
    character, and then returns the characters of [frame[40 : 40 + 8N]]. *)
Lemma parse_din_status_response_binary frame :
  binary frame = true ->
  25 <= len frame ->
  parse_din_status_response frame =
    Ok (map char_bit (slice 40 (40 + declared_length frame * 8) frame)).
Proof.
  intros Hb Hlen. unfold parse_din_status_response, declared_length.
  rewrite int_base2_binary.
  - simpl. rewrite map_result_binary by now apply binary_slice.
    reflexivity.
  - now apply binary_slice.
  - rewrite len_slice by lia. lia.
Qed.

(** Without a 25th character the length field is the empty string and
    [int] rejects it. *)
Lemma parse_din_status_response_short frame :
  len frame <= 24 ->
  parse_din_status_response frame = Raise ValueError_invalid_literal.
Proof.
  intros Hlen. unfold parse_din_status_response.
  rewrite int_base2_empty; [reflexivity |].
  rewrite len_slice by lia. pose proof (len_nonneg frame). lia.
Qed.

Lemma length_field_of_wire_frame tag cmd length_field payload rest :
  len tag = 16 -> len cmd = 8 -> len length_field = 16 ->
  slice 24 40 (wire_frame tag cmd length_field payload rest) = length_field.
Proof.
  intros Ht Hc Hl. unfold wire_frame.
  rewrite slice_app_skip by lia. rewrite Ht.
  rewrite slice_app_skip by lia. rewrite Hc.
  now apply slice_app_exact.
Qed.

Lemma payload_of_wire_frame tag cmd length_field payload rest :
  len tag = 16 -> len cmd = 8 -> len length_field = 16 ->
  slice 40 (40 + len payload) (wire_frame tag cmd length_field payload rest)
  = payload.
Proof.
  intros Ht Hc Hl. unfold wire_frame. pose proof (len_nonneg payload).
  rewrite slice_app_skip by lia. rewrite Ht.
  rewrite slice_app_skip by lia. rewrite Hc.
  rewrite slice_app_skip by lia. rewrite Hl.
  apply slice_app_exact. lia.
Qed.

Lemma len_app {A : Type} (s t : list A) : len (s ++ t) = len s + len t.
Proof. unfold len. rewrite length_app. lia. Qed.

Lemma len_map {A B : Type} (f : A -> B) (s : list A) : len (map f s) = len s.
Proof. unfold len. now rewrite length_map. Qed.

(** C3 (as stated) fails: a frame of 24 characters has no length field,
    and the parser raises on it. *)
Lemma C3_short_frame_raises :
  ~ (binary (lit "010100100101001100011111") = true ->
     returns (parse_din_status_response (lit "010100100101001100011111"))).
Proof.
  intros H. destruct (H eq_refl) as [arr Harr].
  vm_compute in Harr. discriminate Harr.
Qed.

(** C3 (amended): on a string of 0 and 1 characters that has at least 25
    characters the parser never raises: it returns an array that is at most
    as long as the length field declares, also when the frame is shorter
    than declared; on 24 characters or fewer it raises a ValueError. *)
Theorem C3_parse_raises_only_without_length_field
  (frame : str) (Hb : binary frame = true) :
  (25 <= len frame ->
   exists arr,
     parse_din_status_response frame = Ok arr /\
     len arr <= 8 * declared_length frame /\
     len arr <= Z.max 0 (len frame - 40)) /\
  (len frame <= 24 ->
   parse_din_status_response frame = Raise ValueError_invalid_literal).
Proof.
  split.
  - intros Hlen. eexists. split.
    + now apply parse_din_status_response_binary.
    + pose proof (unsigned_of_chars_nonneg (slice 24 40 frame)) as HN.
      fold (declared_length frame) in HN.
      rewrite len_map, len_slice by lia. lia.
  - apply parse_din_status_response_short.
Qed.

Lemma C3_witness :
  binary (lit "0101001001010011000111110000000000000100") = true /\
  parse_din_status_response (lit "0101001001010011000111110000000000000100")
  = Ok [].
Proof.
  split; [reflexivity |].
  destruct (C3_parse_raises_only_without_length_field
              (lit "0101001001010011000111110000000000000100") eq_refl)
    as [Hlong _].
  destruct Hlong as [arr [Harr _]]; [vm_compute; discriminate |].
  rewrite Harr. vm_compute in Harr. now injection Harr as <-.
Defined.

(** C4 (as stated) fails: on a frame laid out as section 6 describes, with
    a one-byte length field N = 1 and the payload 10101010 starting at bit
    32, the parser reads the 16 bits [24, 40) as the length (0x01AA) and
    returns what follows bit 40, which is nothing. *)
Lemma C4_sec6_layout_not_parsed :
  ~ (sec6_layout (lit "0101001001010011") (lit "00011111")
                 (lit "00000001") (lit "10101010") ->
     parse_din_status_response
       (sec6_frame (lit "0101001001010011") (lit "00011111")
                   (lit "00000001") (lit "10101010"))
     = Ok (map char_bit (lit "10101010"))).
Proof.
  intros H.
  assert (Hlayout : sec6_layout (lit "0101001001010011") (lit "00011111")
                                (lit "00000001") (lit "10101010"))
    by (repeat split; reflexivity).
  specialize (H Hlayout). vm_compute in H. discriminate H.
Qed.

(** C4 (amended): the parser reads the layout [16-bit tag][8-bit echoed
    command][16-bit length N][8N-bit payload]: the length N is taken from the
    two bytes at bits 24-39 and the returned DIN array is exactly the 8N
    payload bits that begin at bit 40. *)
Theorem C4_parse_wire_layout
  (tag cmd length_field payload rest : str)
  (Hb : binary (wire_frame tag cmd length_field payload rest) = true)
  (Htag : len tag = 16) (Hcmd : len cmd = 8)
  (Hfield : len length_field = 16)
  (Hpayload : len payload = 8 * unsigned_of_chars length_field) :
  declared_length (wire_frame tag cmd length_field payload rest)
  = unsigned_of_chars length_field /\
  parse_din_status_response (wire_frame tag cmd length_field payload rest)
  = Ok (map char_bit payload).
Proof.
  assert (HN : declared_length (wire_frame tag cmd length_field payload rest)
               = unsigned_of_chars length_field).
  { unfold declared_length. now rewrite length_field_of_wire_frame. }
  split; [exact HN |].
  rewrite parse_din_status_response_binary; trivial.
  - rewrite HN.
    replace (40 + unsigned_of_chars length_field * 8)
      with (40 + len payload) by lia.
    now rewrite payload_of_wire_frame.
  - unfold wire_frame. rewrite !len_app.
    pose proof (len_nonneg payload). pose proof (len_nonneg rest). lia.
Qed.

(** The example response of the source file: length field 0x0001, payload
    10101010, one trailing byte. *)
Lemma C4_witness :
  parse_din_status_response
    (lit "01010010010100110001111100000000000000011010101011111111")
  = Ok [1; 0; 1; 0; 1; 0; 1; 0].
Proof.
  apply (C4_parse_wire_layout
           (lit "0101001001010011") (lit "00011111")
           (lit "0000000000000001") (lit "10101010") (lit "11111111"));
    reflexivity.
Defined.

(** C6: when the bits [24, 40) of a frame encode N and the frame has at
    least 40 + 8N bits, the parser returns exactly the 8N bits at positions
    [40, 40 + 8N), in order, each as the integer 0 or 1. *)
Theorem C6_parse_round_trip
  (frame : str) (N : Z)
  (Hb : binary frame = true)
  (HN : declared_length frame = N)
  (Hlen : 40 + 8 * N <= len frame) :
  exists arr,
    parse_din_status_response frame = Ok arr /\
    arr = map char_bit (firstn (Z.to_nat (8 * N)) (skipn 40 frame)) /\
    len arr = 8 * N /\
    bits01 arr = true /\
    forall i : nat,
      Z.of_nat i < 8 * N ->
      nth i arr 0 = char_bit (nth (40 + i) frame "0"%char).
Proof.
  pose proof (unsigned_of_chars_nonneg (slice 24 40 frame)) as Hpos.
  fold (declared_length frame) in Hpos. rewrite HN in Hpos.
  assert (Hslice : slice 40 (40 + N * 8) frame
                   = firstn (Z.to_nat (8 * N)) (skipn 40 frame)).
  { rewrite slice_nonneg by lia.
    now replace (40 + N * 8 - 40) with (8 * N) by lia. }
  assert (Hsize : len (slice 40 (40 + N * 8) frame) = 8 * N).
  { rewrite len_slice by lia. lia. }
  eexists. split; [| split; [| split; [| split]]].
  - rewrite parse_din_status_response_binary by (trivial; lia).
    rewrite HN. reflexivity.
  - now rewrite Hslice.
  - now rewrite len_map.
  - apply char_bit_is_bit.
  - intros i Hi.
    change 0 with (char_bit "0"%char) at 1. rewrite map_nth.
    rewrite nth_slice by lia. reflexivity.
Qed.

Lemma C6_witness :
  parse_din_status_response
    (lit "01010010010100110001111100000000000000011010101011111111")
  = Ok (map char_bit (lit "10101010")).
Proof.
  destruct (C6_parse_round_trip
              (lit "01010010010100110001111100000000000000011010101011111111")
              1 eq_refl eq_refl)
    as [arr [Hparse [Harr _]]].
  - vm_compute. discriminate.
  - rewrite Hparse, Harr. reflexivity.
Defined.

(** C10: on a string of 0 and 1 characters of length L >= 40 the parser
    returns an array of length min(8N, L - 40), N being the unsigned value of
    the bits [24, 40); every element is 0 or 1 and element i is the
    character at position 40 + i of the input. *)
Theorem C10_parse_length_and_order
  (frame : str)
  (Hb : binary frame = true)
  (Hlen : 40 <= len frame) :
  exists arr,
    parse_din_status_response frame = Ok arr /\
    len arr = Z.min (8 * declared_length frame) (len frame - 40) /\
    bits01 arr = true /\
    forall i : nat,
      Z.of_nat i < len arr ->
      nth i arr 0 = char_bit (nth (40 + i) frame "0"%char).
Proof.
  pose proof (unsigned_of_chars_nonneg (slice 24 40 frame)) as Hpos.
  fold (declared_length frame) in Hpos.
  eexists. split; [| split; [| split]].
  - apply parse_din_status_response_binary; trivial. lia.
  - rewrite len_map, len_slice by lia. lia.
  - apply char_bit_is_bit.
  - intros i Hi. rewrite len_map in Hi.
    change 0 with (char_bit "0"%char) at 1. rewrite map_nth.
    rewrite nth_slice by lia. reflexivity.
Qed.

Lemma C10_witness :
  exists arr,
    parse_din_status_response
      (lit "010100100101001100011111000000000000001010101010111") = Ok arr /\
    len arr = 11.
Proof.
  destruct (C10_parse_length_and_order
              (lit "010100100101001100011111000000000000001010101010111")
              eq_refl)
    as [arr [Hparse [Hsize _]]].
  - vm_compute. discriminate.
  - exists arr. split; [exact Hparse |].
    rewrite Hsize. reflexivity.
Defined.

(** ** Bit arrays and the status interpreter *)

Lemma bit_int_cases b : bit_int b = true -> b = 0 \/ b = 1.
Proof.
  unfold bit_int. intros H.
  apply orb_true_iff in H as [H | H]; apply Z.eqb_eq in H; auto.
Qed.

Lemma bits01_cons b l :
  bits01 (b :: l) = true <-> bit_int b = true /\ bits01 l = true.
Proof. unfold bits01. simpl. apply andb_true_iff. Qed.

Lemma str_of_int_bit b :
  bit_int b = true ->
  str_of_int b = [if b =? 1 then "1"%char else "0"%char].
Proof. intros H. destruct (bit_int_cases b H); subst; reflexivity. Qed.

Lemma int2_digits_bits l :
  bits01 l = true ->
  forall acc,
    int2_digits acc (join (map str_of_int l))
    = Ok (fold_left (fun a b => 2 * a + b) l acc).
Proof.
  induction l as [| b l IH]; intros Hl acc.
  - reflexivity.
  - apply bits01_cons in Hl as [Hb Hl].
    unfold join in *. cbn [map concat fold_left].
    rewrite (str_of_int_bit b Hb).
    destruct (bit_int_cases b Hb); subst b; cbn [app int2_digits];
      cbv [bit_of_ascii Ascii.eqb Bool.eqb Z.eqb]; now apply IH.
Qed.

Lemma int_base2_bits l :
  bits01 l = true -> 0 < len l ->
  int_base2 (join (map str_of_int l)) = Ok (unsigned_of_bits l).
Proof.
  intros Hl Hlen.
  pose proof (int2_digits_bits l Hl 0) as Hdigits.
  destruct l as [| b l]; [unfold len in Hlen; simpl in Hlen; lia |].
  apply bits01_cons in Hl as [Hb _].
  unfold join in *. cbn [map concat] in *.
  rewrite (str_of_int_bit b Hb) in *.
  exact Hdigits.
Qed.

Lemma len_cons {A : Type} (x : A) (l : list A) : len (x :: l) = len l + 1.
Proof. unfold len. simpl length. lia. Qed.

Lemma fold_bits_shift l :
  forall acc,
    fold_left (fun a b => 2 * a + b) l acc
    = acc * 2 ^ len l + fold_left (fun a b => 2 * a + b) l 0.
Proof.
  induction l as [| b l IH]; intros acc; cbn [fold_left].
  - unfold len. simpl. lia.
  - rewrite (IH (2 * acc + b)), (IH (2 * 0 + b)).
    rewrite len_cons, Z.pow_add_r by (pose proof (len_nonneg l); lia).
    lia.
Qed.

Lemma unsigned_of_bits_cons b l :
  unsigned_of_bits (b :: l) = b * 2 ^ len l + unsigned_of_bits l.
Proof.
  unfold unsigned_of_bits. cbn [fold_left].
  rewrite fold_bits_shift. f_equal; lia.
Qed.

Lemma unsigned_of_bits_range l :
  bits01 l = true -> 0 <= unsigned_of_bits l < 2 ^ len l.
Proof.
  induction l as [| b l IH]; intros Hl.
  - unfold unsigned_of_bits, len. simpl. lia.
  - apply bits01_cons in Hl as [Hb Hl]. specialize (IH Hl).
    rewrite unsigned_of_bits_cons, len_cons.
    rewrite Z.pow_add_r by (pose proof (len_nonneg l); lia).
    destruct (bit_int_cases b Hb); subst b; lia.
Qed.

(** ** Bit-level facts about [Z] *)

Lemma land_pow2 u k :
  0 <= k -> Z.land u (2 ^ k) = if Z.testbit u k then 2 ^ k else 0.
Proof.
  intros Hk. apply Z.bits_inj'. intros n Hn.
  rewrite Z.land_spec, Z.pow2_bits_eqb by trivial.
  destruct (Z.eqb_spec k n) as [-> | Hne].
  - destruct (Z.testbit u n); simpl.
    + now rewrite Z.pow2_bits_true.
    + now rewrite Z.bits_0.
  - rewrite andb_false_r.
    destruct (Z.testbit u k).
    + rewrite Z.pow2_bits_false; trivial.
    + now rewrite Z.bits_0.
Qed.

Lemma testbit_top u k :
  0 <= k -> 0 <= u < 2 ^ (k + 1) -> Z.testbit u k = (2 ^ k <=? u).
Proof.
  intros Hk Hu. rewrite Z.pow_add_r in Hu by lia.
  change (2 ^ 1) with 2 in Hu.
  assert (Hpos : 0 < 2 ^ k) by (apply Z.pow_pos_nonneg; lia).
  apply eq_true_iff_eq. rewrite Z.testbit_true, Z.leb_le by trivial.
  destruct (Z_lt_le_dec u (2 ^ k)) as [Hlow | Hhigh].
  - rewrite Z.div_small by lia. cbn. lia.
  - replace (u / 2 ^ k) with 1.
    + cbn. lia.
    + apply Z.div_unique with (r := u - 2 ^ k); lia.
Qed.

Lemma testbit_above u k n :
  0 <= u < 2 ^ k -> k <= n -> Z.testbit u n = false.
Proof.
  intros Hu Hn.
  destruct (Z.eq_dec u 0) as [-> | Hnz]; [apply Z.bits_0 |].
  assert (0 <= k).
  { destruct (Z_lt_le_dec k 0) as [Hneg | Hpos]; trivial.
    rewrite Z.pow_neg_r in Hu by trivial. lia. }
  apply Z.bits_above_log2; [lia |].
  assert (Z.log2 u < k) by (apply Z.log2_lt_pow2; lia). lia.
Qed.

Lemma lor_high_ones u w :
  0 <= w <= 32 -> 0 <= u < 2 ^ w ->
  Z.lor u (Z.shiftl (Z.ones (32 - w)) w) = u + 2 ^ 32 - 2 ^ w.
Proof.
  intros Hw Hu.
  assert (Hdisj : Z.land u (Z.shiftl (Z.ones (32 - w)) w) = 0).
  { apply Z.bits_inj'. intros n Hn.
    rewrite Z.land_spec, Z.bits_0.
    destruct (Z_lt_le_dec n w) as [Hlow | Hhigh].
    - rewrite Z.shiftl_spec_low by trivial. apply andb_false_r.
    - now rewrite (testbit_above u w n). }
  rewrite <- Z.lxor_lor, <- Z.add_nocarry_lxor by trivial.
  rewrite Z.shiftl_mul_pow2, Z.ones_equiv by lia.
  rewrite <- Z.sub_1_r, Z.mul_sub_distr_r, <- Z.pow_add_r by lia.
  replace (32 - w + w) with 32 by lia. lia.
Qed.

(** The final normalisation is the identity on the signed 32-bit range. *)
Lemma normalise_32 s :
  - 2 ^ 31 <= s < 2 ^ 31 ->
  (let m := Z.land s 0xFFFFFFFF in
   if 0x80000000 <=? m then m - 0x100000000 else m) = s.
Proof.
  intros Hs. cbv zeta.
  change 0xFFFFFFFF with (Z.ones 32). rewrite Z.land_ones by lia.
  change (2 ^ 31) with 2147483648 in Hs.
  change (2 ^ 32) with 4294967296.
  pose proof (Z.mod_pos_bound s 4294967296 eq_refl) as Hm.
  pose proof (Z.div_mod s 4294967296 ltac:(lia)) as Hdiv.
  destruct (Z.leb_spec 0x80000000 (s mod 4294967296)); lia.
Qed.

Lemma pow2_le_31 k : 0 <= k <= 31 -> 0 < 2 ^ k <= 2 ^ 31.
Proof.
  intros Hk. split.
  - apply Z.pow_pos_nonneg; lia.
  - apply Z.pow_le_mono_r; lia.
Qed.

Lemma twos_complement_range bits :
  bits01 bits = true -> 1 <= len bits ->
  - 2 ^ (len bits - 1) <= twos_complement bits < 2 ^ (len bits - 1) /\
  twos_complement bits mod 2 ^ len bits = unsigned_of_bits bits.
Proof.
  intros Hb Hw. destruct bits as [| b rest].
  - unfold len in Hw. simpl in Hw. lia.
  - apply bits01_cons in Hb as [Hb Hrest].
    pose proof (unsigned_of_bits_range rest Hrest) as Hr.
    pose proof (len_nonneg rest) as Hlen.
    unfold twos_complement. cbn [hd].
    rewrite unsigned_of_bits_cons, len_cons.
    replace (len rest + 1 - 1) with (len rest) by lia.
    rewrite Z.pow_add_r by lia. change (2 ^ 1) with 2.
    destruct (bit_int_cases b Hb); subst b.
    + change (0 =? 1) with false. cbv iota.
      split; [lia |]. apply Z.mod_small. lia.
    + change (1 =? 1) with true. cbv iota. split; [lia |].
      replace (1 * 2 ^ len rest + unsigned_of_bits rest - 2 ^ len rest * 2)
        with (2 ^ len rest + unsigned_of_bits rest
              + (-1) * (2 ^ len rest * 2)) by lia.
      rewrite Z.mod_add, Z.mod_small by lia. lia.
Qed.

(** The sign test of the code, [unsigned_value & (1 << (num_bits - 1))],
    sees the leading element of the array. *)
Lemma leading_bit_threshold bits :
  bits01 bits = true -> 1 <= len bits ->
  (2 ^ (len bits - 1) <=? unsigned_of_bits bits) = (hd 0 bits =? 1).
Proof.
  intros Hb Hw.
  destruct bits as [| b rest]; [unfold len in Hw; simpl in Hw; lia |].
  apply bits01_cons in Hb as [Hb Hrest].
  pose proof (unsigned_of_bits_range rest Hrest) as Hr.
  rewrite unsigned_of_bits_cons, len_cons. cbn [hd].
  replace (len rest + 1 - 1) with (len rest) by lia.
  destruct (bit_int_cases b Hb); subst b.
  - change (0 =? 1) with false. apply Z.leb_gt. lia.
  - change (1 =? 1) with true. apply Z.leb_le. lia.
Qed.

Lemma normalise_32_ok s :
  - 2 ^ 31 <= s < 2 ^ 31 ->
  (if 0x80000000 <=? Z.land s 0xFFFFFFFF
   then Ok (Z.land s 0xFFFFFFFF - 0x100000000)
   else Ok (Z.land s 0xFFFFFFFF)) = Ok s.
Proof.
  intros Hs. pose proof (normalise_32 s Hs) as Hnorm. cbv zeta in Hnorm.
  destruct (0x80000000 <=? Z.land s 0xFFFFFFFF); now f_equal.
Qed.

(** On a non-empty bit array of at most 32 elements the interpreter does
    not raise, and the two-stage computation yields the two's-complement
    value of the array at its own width. *)
Lemma din_status_value bits :
  bits01 bits = true -> 1 <= len bits <= 32 ->
  din_status_to_32bit_signed_integer bits = Ok (twos_complement bits).
Proof.
  intros Hb Hw.
  destruct (twos_complement_range bits Hb (proj1 Hw)) as [Hrange _].
  assert (H32 : - 2 ^ 31 <= twos_complement bits < 2 ^ 31).
  { pose proof (pow2_le_31 (len bits - 1) ltac:(lia)). lia. }
  pose proof (unsigned_of_bits_range bits Hb) as Hu.
  unfold din_status_to_32bit_signed_integer.
  destruct (Z.ltb_spec 32 (len bits)) as [Hbig | _]; [lia |].
  rewrite int_base2_bits by (trivial; lia). cbn [bind].
  unfold lshift.
  destruct (Z.ltb_spec (len bits - 1) 0) as [Hneg | _]; [lia |].
  destruct (Z.ltb_spec (len bits) 0) as [Hneg | _]; [lia |].
  cbn [bind]. rewrite !Z.shiftl_1_l.
  rewrite land_pow2 by lia.
  rewrite (testbit_top (unsigned_of_bits bits) (len bits - 1))
    by (replace (len bits - 1 + 1) with (len bits); lia).
  rewrite leading_bit_threshold by (trivial; lia).
  pose proof (pow2_le_31 (len bits - 1) ltac:(lia)) as Hpow.
  unfold twos_complement in H32 |- *.
  destruct (hd 0 bits =? 1).
  - destruct (Z.eqb_spec (2 ^ (len bits - 1)) 0) as [Hz | _]; [lia |].
    cbn [bind]. cbv zeta. now apply normalise_32_ok.
  - change (0 =? 0) with true. cbn [bind]. cbv zeta.
    now apply normalise_32_ok.
Qed.

(** Sign extension to 32 bits and the width-w two's-complement value are
    the same number. *)
Lemma sign_extend_32_twos_complement bits :
  bits01 bits = true -> 1 <= len bits <= 32 ->
  sign_extend_32 bits = twos_complement bits.
Proof.
  intros Hb Hw.
  pose proof (unsigned_of_bits_range bits Hb) as Hu.
  pose proof (leading_bit_threshold bits Hb (proj1 Hw)) as Hsign.
  pose proof (pow2_le_31 (len bits - 1) ltac:(lia)) as Hpow.
  assert (Hdouble : 2 ^ len bits = 2 * 2 ^ (len bits - 1)).
  { rewrite <- Z.pow_succ_r by lia. f_equal. lia. }
  unfold sign_extend_32, twos_complement.
  destruct (hd 0 bits =? 1).
  - apply Z.leb_le in Hsign.
    rewrite lor_high_ones by lia.
    rewrite (testbit_top _ 31) by (change (2 ^ (31 + 1)) with (2 ^ 32); lia).
    destruct (Z.leb_spec (2 ^ 31)
                (unsigned_of_bits bits + 2 ^ 32 - 2 ^ len bits)); lia.
  - apply Z.leb_gt in Hsign.
    rewrite (testbit_above _ 31 31) by lia. reflexivity.
Qed.

(** C2 (as stated) fails: the empty array does not yield 0. *)
Lemma C2_empty_array_is_not_zero :
  ~ (din_status_to_32bit_signed_integer [] = Ok 0).
Proof. vm_compute. discriminate. Qed.

(** C2 (amended): applied to the empty array,
    din_status_to_32bit_signed_integer raises a ValueError (the empty bit
    string is not a valid literal for int) rather than returning 0. *)
Theorem C2_empty_array_raises :
  din_status_to_32bit_signed_integer [] = Raise ValueError_invalid_literal.
Proof. reflexivity. Qed.

(** C5: for every bit array of length w with 1 <= w <= 32 over {0,1},
    din_status_to_32bit_signed_integer returns the width-w two's-complement
    value of the array; the documented two-stage computation agrees with
    direct 32-bit sign extension; and the 32-element all-ones array
    yields -1. *)
Theorem C5_two_stage_is_sign_extension
  (bits : list Z)
  (Hb : bits01 bits = true)
  (Hw : 1 <= len bits <= 32) :
  din_status_to_32bit_signed_integer bits = Ok (twos_complement bits) /\
  two_stage_value bits = twos_complement bits /\
  two_stage_value bits = sign_extend_32 bits /\
  - 2 ^ (len bits - 1) <= twos_complement bits < 2 ^ (len bits - 1) /\
  twos_complement bits mod 2 ^ len bits = unsigned_of_bits bits /\
  (bits = repeat 1 32%nat ->
   din_status_to_32bit_signed_integer bits = Ok (-1)).
Proof.
  pose proof (din_status_value bits Hb Hw) as Hvalue.
  destruct (twos_complement_range bits Hb (proj1 Hw)) as [Hrange Hmod].
  assert (Hstage : two_stage_value bits = twos_complement bits).
  { apply (normalise_32 (twos_complement bits)).
    pose proof (pow2_le_31 (len bits - 1) ltac:(lia)). lia. }
  repeat split; try tauto.
  - now rewrite sign_extend_32_twos_complement.
  - intros ->. reflexivity.
Qed.

Lemma C5_witness :
  din_status_to_32bit_signed_integer (repeat 1 32%nat) = Ok (-1) /\
  din_status_to_32bit_signed_integer [1; 0; 1] = Ok (-3) /\
  sign_extend_32 [1; 0; 1] = -3.
Proof.
  destruct (C5_two_stage_is_sign_extension (repeat 1 32%nat) eq_refl)
    as [_ [_ [_ [_ [_ Hones]]]]].
  - vm_compute. split; discriminate.
  - split; [exact (Hones eq_refl) |].
    destruct (C5_two_stage_is_sign_extension [1; 0; 1] eq_refl)
      as [Hvalue [Hstage [Hext _]]].
    + vm_compute. split; discriminate.
    + split; [exact Hvalue |]. rewrite <- Hext, Hstage. reflexivity.
Defined.

(** ** The request builder *)

Lemma bin_pos_binary p :
  forall acc, binary acc = true -> binary (bin_pos p acc) = true.
Proof.
  induction p as [p IH | p IH |]; intros acc Hacc; cbn [bin_pos].
  - apply IH. now apply binary_cons.
  - apply IH. now apply binary_cons.
  - now apply binary_cons.
Qed.

Lemma len_bin_pos p :
  forall acc, len (bin_pos p acc) = Z.of_nat (Pos.size_nat p) + len acc.
Proof.
  induction p as [p IH | p IH |]; intros acc; cbn [bin_pos Pos.size_nat].
  - rewrite IH, len_cons. lia.
  - rewrite IH, len_cons. lia.
  - rewrite len_cons. lia.
Qed.

Lemma size_nat_bound p :
  forall k : nat, Z.pos p < 2 ^ Z.of_nat k -> (Pos.size_nat p <= k)%nat.
Proof.
  induction p as [p IH | p IH |]; intros k Hk; cbn [Pos.size_nat];
    (destruct k as [| k]; [cbn in Hk; lia |]);
    rewrite Nat2Z.inj_succ, Z.pow_succ_r in Hk by lia.
  - apply le_n_S, IH. lia.
  - apply le_n_S, IH. lia.
  - lia.
Qed.

Lemma zfill_binary w s :
  binary s = true ->
  zfill w s = repeat "0"%char (Z.to_nat (w - len s)) ++ s.
Proof.
  intros Hs. unfold zfill. destruct s as [| c s].
  - now rewrite app_nil_r.
  - apply binary_cons in Hs as [Hc _].
    destruct (bit_char_cases c Hc); subst c; reflexivity.
Qed.

Lemma len_zfill_binary w s :
  binary s = true -> len (zfill w s) = Z.max w (len s).
Proof.
  intros Hs. rewrite zfill_binary by trivial.
  rewrite len_app. unfold len at 1. rewrite repeat_length.
  pose proof (len_nonneg s). lia.
Qed.

(** [bin(n)[2:]] for a positive number. *)
Lemma bin_digits_pos p : slice_from 2 (bin (Z.pos p)) = bin_pos p [].
Proof.
  unfold bin. cbn [lit list_ascii_of_string app].
  rewrite slice_from_nonneg.
  - reflexivity.
  - rewrite !len_cons. pose proof (len_nonneg (bin_pos p [])). lia.
Qed.

(** The length check of line 32 passes for every command number below
    2^32. *)
Lemma length_check_passes n :
  0 <= n < 2 ^ 32 ->
  (32 <? len (zfill 8 (slice_from 2 (bin n)))) = false.
Proof.
  intros Hn. apply Z.ltb_ge. destruct n as [| p | p]; [| | lia].
  - vm_compute. discriminate.
  - rewrite bin_digits_pos.
    rewrite len_zfill_binary by now apply bin_pos_binary.
    rewrite len_bin_pos.
    pose proof (size_nat_bound p 32 (proj2 Hn)). unfold len. simpl length. lia.
Qed.

Lemma generate_request_message_unfold n :
  0 <= n < 2 ^ 32 ->
  generate_request_message n = frame_of_command_byte (Z.land n 0xFF).
Proof.
  intros Hn. unfold generate_request_message.
  cbv zeta. rewrite (length_check_passes n Hn). reflexivity.
Qed.

Lemma command_byte_range n : 0 <= Z.land n 0xFF < 256.
Proof.
  change 0xFF with (Z.ones 8). rewrite Z.land_ones by lia.
  apply Z.mod_pos_bound. reflexivity.
Qed.

Lemma command_bytes_complete c : 0 <= c < 256 -> In c command_bytes.
Proof.
  intros Hc. unfold command_bytes. apply in_map_iff.
  exists (Z.to_nat c). split; [lia |]. apply in_seq. lia.
Qed.

Lemma frame_checks_all : forallb frame_checks command_bytes = true.
Proof. vm_compute. reflexivity. Qed.

(** Everything the statements below need to know about the frame built
    from a command byte. *)
Lemma frame_of_command_byte_facts c :
  0 <= c < 256 ->
  exists frame,
    frame_of_command_byte c = Ok frame /\
    len frame = 32 /\
    binary frame = true /\
    int_base2 frame = Ok (packed_frame c) /\
    frame_byte 2 frame = Ok (byte2_of_frame c) /\
    frame_byte 3 frame = Ok (Z.land (0x52 + 0x51 + c) 0xFF) /\
    Z.land (packed_frame c) 0xFF = Z.land (0x52 + 0x51 + c) 0xFF /\
    Z.testbit (0xA3 + c) 8 = (0x5D <=? c).
Proof.
  intros Hc.
  pose proof frame_checks_all as Hall.
  rewrite forallb_forall in Hall.
  specialize (Hall c (command_bytes_complete c Hc)).
  unfold frame_checks in Hall.
  destruct (frame_of_command_byte c) as [frame |]; [| discriminate].
  destruct (int_base2 frame) as [v |] eqn:Hv; [| discriminate].
  destruct (frame_byte 2 frame) as [b2 |] eqn:Hb2; [| discriminate].
  destruct (frame_byte 3 frame) as [b3 |] eqn:Hb3; [| discriminate].
  repeat (apply andb_true_iff in Hall as [Hall ?]).
  repeat match goal with
         | E : (_ =? _) = true |- _ => apply Z.eqb_eq in E
         end.
  exists frame. subst v b2 b3.
  repeat split; trivial. now apply Bool.eqb_prop.
Qed.

(** Byte 2 of the frame is the command byte except when the checksum sum
    carries into it and the command byte is even. *)
Lemma byte2_of_frame_exact c :
  0 <= c < 256 ->
  (byte2_of_frame c = c <-> c < 0x5D \/ Z.odd c = true).
Proof.
  intros Hc.
  assert (Hall : forallb
                   (fun c => Bool.eqb (byte2_of_frame c =? c)
                                      ((c <? 0x5D) || Z.odd c))
                   command_bytes = true)
    by (vm_compute; reflexivity).
  rewrite forallb_forall in Hall.
  specialize (Hall c (command_bytes_complete c Hc)).
  apply Bool.eqb_prop in Hall.
  rewrite <- Z.eqb_eq, Hall, orb_true_iff, Z.ltb_lt. reflexivity.
Qed.

(** C1 (the code at the failing input): for the command number 0x5E the
    checksum sum 0x52 + 0x51 + 0x5E = 0x101 does not fit a byte, its bit 8
    is OR'd into the command byte, and byte 2 of the frame is 0x5F, not
    0x5E. *)
Theorem C1_byte2_at_0x5E :
  generate_request_message 0x5E
  = Ok (lit "01010010010100010101111100000001") /\
  frame_byte 2 (lit "01010010010100010101111100000001") = Ok 0x5F /\
  Z.land 0x5E 0xFF = 0x5E.
Proof. repeat split. Qed.

(** C7 (the code at the failing input): for the command number 0x5E the
    frame is 52 51 5F 01.  Its checksum byte 0x01 is
    (0x52 + 0x51 + 0x5E) & 0xFF, the sum taken before line 46 OR'd bit 8 of
    that sum into byte 2; it is not the sum of the three bytes that precede
    it in the frame, (0x52 + 0x51 + 0x5F) & 0xFF = 0x02. *)
Theorem C7_checksum_at_0x5E :
  generate_request_message 0x5E
  = Ok (lit "01010010010100010101111100000001") /\
  frame_byte 0 (lit "01010010010100010101111100000001") = Ok 0x52 /\
  frame_byte 1 (lit "01010010010100010101111100000001") = Ok 0x51 /\
  frame_byte 2 (lit "01010010010100010101111100000001") = Ok 0x5F /\
  frame_byte 3 (lit "01010010010100010101111100000001") = Ok 0x01 /\
  Z.land (0x52 + 0x51 + Z.land 0x5E 0xFF) 0xFF = 0x01 /\
  Z.land (0x52 + 0x51 + 0x5F) 0xFF = 0x02.
Proof. repeat split. Qed.

(** X15: for every command number n with 0 <= n < 2^32 the checksum byte
    (bits 24-31, the low 8 bits of the encoded value) of the frame returned
    by generate_request_message(n) is (0x52 + 0x51 + (n & 0xFF)) & 0xFF, a
    function of the command number alone. *)
Theorem X15_checksum_byte_of_command_number
  (n : Z) (Hn : 0 <= n < 2 ^ 32) :
  exists frame value,
    generate_request_message n = Ok frame /\
    len frame = 32 /\
    frame_byte 3 frame = Ok (Z.land (0x52 + 0x51 + Z.land n 0xFF) 0xFF) /\
    int_base2 frame = Ok value /\
    Z.land value 0xFF = Z.land (0x52 + 0x51 + Z.land n 0xFF) 0xFF.
Proof.
  rewrite generate_request_message_unfold by trivial.
  destruct (frame_of_command_byte_facts _ (command_byte_range n))
    as [frame [Hframe [Hlen [_ [Hval [_ [Hb3 [Hlow _]]]]]]]].
  exists frame, (packed_frame (Z.land n 0xFF)). auto.
Qed.

Lemma X15_witness :
  exists frame,
    generate_request_message 0x1FF = Ok frame /\
    frame_byte 3 frame = Ok 0xA2.
Proof.
  destruct (X15_checksum_byte_of_command_number 0x1FF)
    as [frame [value [Hframe [_ [Hb3 _]]]]].
  - vm_compute. split; [discriminate | reflexivity].
  - exists frame. split; [exact Hframe | exact Hb3].
Defined.

(** C8: generate_request_message(0x1F) returns the bit string
    01010010010100010001111111000010, the value 0x52511FC2, with tag bytes
    0x52 0x51, command byte 0x1F and checksum byte 0xC2. *)
Theorem C8_request_0x1F :
  generate_request_message 0x1F
  = Ok (lit "01010010010100010001111111000010") /\
  len (lit "01010010010100010001111111000010") = 32 /\
  int_base2 (lit "01010010010100010001111111000010") = Ok 0x52511FC2 /\
  frame_byte 0 (lit "01010010010100010001111111000010") = Ok 0x52 /\
  frame_byte 1 (lit "01010010010100010001111111000010") = Ok 0x51 /\
  frame_byte 2 (lit "01010010010100010001111111000010") = Ok 0x1F /\
  frame_byte 3 (lit "01010010010100010001111111000010") = Ok 0xC2.
Proof. repeat split. Qed.

(** C9: for every command number n with 0 <= n < 2^32 the frame returned by
    generate_request_message(n) encodes the 32-bit value
    ((0x5251 << 16) | ((n & 0xFF) << 8)) | (0xA3 + (n & 0xFF)); bit 8 of the
    checksum sum is set exactly when n & 0xFF >= 0x5D, and byte 2 then reads
    (n & 0xFF) | 1, and n & 0xFF otherwise. *)
Theorem C9_unreduced_checksum_is_ored
  (n : Z) (Hn : 0 <= n < 2 ^ 32) :
  exists frame,
    generate_request_message n = Ok frame /\
    len frame = 32 /\
    binary frame = true /\
    int_base2 frame
    = Ok (Z.lor (Z.lor (Z.shiftl 0x5251 16) (Z.shiftl (Z.land n 0xFF) 8))
                (0xA3 + Z.land n 0xFF)) /\
    (Z.testbit (0xA3 + Z.land n 0xFF) 8 = true <-> 0x5D <= Z.land n 0xFF) /\
    (0x5D <= Z.land n 0xFF ->
     frame_byte 2 frame = Ok (Z.lor (Z.land n 0xFF) 1)) /\
    (Z.land n 0xFF < 0x5D ->
     frame_byte 2 frame = Ok (Z.land n 0xFF)).
Proof.
  rewrite generate_request_message_unfold by trivial.
  destruct (frame_of_command_byte_facts _ (command_byte_range n))
    as [frame [Hframe [Hlen [Hbin [Hval [Hb2 [_ [_ Hcarry]]]]]]]].
  exists frame. unfold byte2_of_frame in Hb2.
  repeat split; trivial.
  - rewrite Hcarry. apply Z.leb_le.
  - rewrite Hcarry. apply Z.leb_le.
  - intros Hge. apply Z.leb_le in Hge. now rewrite Hge in Hb2.
  - intros Hlt. apply Z.leb_gt in Hlt. now rewrite Hlt in Hb2.
Qed.

Lemma C9_witness :
  exists frame,
    generate_request_message 0x5E = Ok frame /\
    int_base2 frame = Ok 0x52515F01 /\
    frame_byte 2 frame = Ok 0x5F.
Proof.
  destruct (C9_unreduced_checksum_is_ored 0x5E)
    as [frame [Hframe [_ [_ [Hval [_ [Hb2 _]]]]]]].
  - vm_compute. split; [discriminate | reflexivity].
  - exists frame. split; [exact Hframe |]. split; [exact Hval |].
    apply Hb2. vm_compute. discriminate.
Defined.

(** ** The example usage of the source file (lines 108-119) *)

Example example_request_message :
  generate_request_message 0x1F
  = Ok (lit "01010010010100010001111111000010").
Proof. reflexivity. Qed.

Example example_parsed_status :
  parse_din_status_response
    (lit "01010010010100110001111100000000000000011010101011111111")
  = Ok [1; 0; 1; 0; 1; 0; 1; 0].
Proof. reflexivity. Qed.

Example example_data_field_int :
  din_status_to_32bit_signed_integer
    [1;0;1;0;1;0;0;1; 1;0;0;0;1;0;1;0; 1;0;1;0;0;1;1;0; 0;0;1;0;1;0;1;1]
  = Ok (-1450531285).
Proof. reflexivity. Qed.

(** An array of 33 elements is rejected by the check of line 82. *)
Example example_33_elements :
  din_status_to_32bit_signed_integer (repeat 1 33%nat)
  = Raise ValueError_array_too_long.
Proof. reflexivity. Qed.

(** ** Further properties of the request builder *)

Lemma size_nat_lower p :
  forall k : nat, (Pos.size_nat p <= k)%nat -> Z.pos p < 2 ^ Z.of_nat k.
Proof.
  induction p as [p IH | p IH |]; intros k Hk; cbn [Pos.size_nat] in Hk;
    (destruct k as [| k]; [lia |]);
    rewrite Nat2Z.inj_succ, Z.pow_succ_r by lia.
  - specialize (IH k ltac:(lia)). lia.
  - specialize (IH k ltac:(lia)). lia.
  - assert (0 < 2 ^ Z.of_nat k) by (apply Z.pow_pos_nonneg; lia). lia.
Qed.

(** [bin(n)[2:]] for a negative number keeps the letter of the prefix. *)
Lemma bin_digits_neg p :
  slice_from 2 (bin (Z.neg p)) = "b"%char :: bin_pos p [].
Proof.
  unfold bin. cbn [lit list_ascii_of_string app].
  rewrite slice_from_nonneg.
  - reflexivity.
  - rewrite !len_cons. pose proof (len_nonneg (bin_pos p [])). lia.
Qed.

Lemma len_zfill_letter w s :
  len (zfill w ("b"%char :: s)) = Z.max w (len s + 1).
Proof.
  unfold zfill. cbn [Ascii.eqb Bool.eqb orb].
  rewrite len_app. unfold len at 1. rewrite repeat_length.
  rewrite !len_cons. pose proof (len_nonneg s). lia.
Qed.

(** The length check of line 32, for every integer. *)
Lemma length_check_fires n :
  (32 <? len (zfill 8 (slice_from 2 (bin n))))
  = ((2 ^ 32 <=? n) || (n <=? - 2 ^ 31))%bool.
Proof.
  destruct n as [| p | p].
  - reflexivity.
  - rewrite bin_digits_pos.
    rewrite len_zfill_binary by now apply bin_pos_binary.
    rewrite len_bin_pos. change (len []) with 0.
    change (Z.pos p <=? - 2 ^ 31) with false. rewrite orb_false_r.
    apply eq_true_iff_eq. rewrite Z.ltb_lt, Z.leb_le.
    change (2 ^ 32) with (2 ^ Z.of_nat 32).
    split; intros H.
    + destruct (Z_lt_le_dec (Z.pos p) (2 ^ Z.of_nat 32)) as [Hlt | Hge];
        trivial.
      apply size_nat_bound in Hlt. lia.
    + destruct (le_lt_dec (Pos.size_nat p) 32) as [Hle | Hgt]; [| lia].
      apply size_nat_lower in Hle. lia.
  - rewrite bin_digits_neg, len_zfill_letter, len_bin_pos.
    change (len []) with 0.
    change (2 ^ 32 <=? Z.neg p) with false. cbn [orb].
    apply eq_true_iff_eq. rewrite Z.ltb_lt, Z.leb_le.
    change (2 ^ 31) with (2 ^ Z.of_nat 31).
    split; intros H.
    + destruct (Z_lt_le_dec (Z.pos p) (2 ^ Z.of_nat 31)) as [Hlt | Hge];
        [| lia].
      apply size_nat_bound in Hlt. lia.
    + destruct (le_lt_dec (Pos.size_nat p) 31) as [Hle | Hgt]; [| lia].
      apply size_nat_lower in Hle. lia.
Qed.

Lemma generate_request_message_accepted n :
  accepted n ->
  generate_request_message n = frame_of_command_byte (Z.land n 0xFF).
Proof.
  intros [Hlo Hhi]. unfold generate_request_message. cbv zeta.
  rewrite length_check_fires.
  destruct (Z.leb_spec (2 ^ 32) n); [lia |].
  destruct (Z.leb_spec n (- 2 ^ 31)); [lia |].
  reflexivity.
Qed.

Lemma command_byte_mod n : Z.land n 0xFF = n mod 256.
Proof. change 0xFF with (Z.ones 8). now rewrite Z.land_ones by lia. Qed.

Lemma frame_bytes_check_all : forallb frame_bytes_check command_bytes = true.
Proof. vm_compute. reflexivity. Qed.

Lemma frame_bytes_facts c :
  0 <= c < 256 ->
  exists frame b2 b3,
    frame_of_command_byte c = Ok frame /\
    frame_byte 0 frame = Ok 0x52 /\
    frame_byte 1 frame = Ok 0x51 /\
    frame_byte 2 frame = Ok b2 /\
    frame_byte 3 frame = Ok b3 /\
    (b3 = Z.land (0x52 + 0x51 + b2) 0xFF <-> c < 0x5D \/ Z.odd c = true).
Proof.
  intros Hc.
  pose proof frame_bytes_check_all as Hall.
  rewrite forallb_forall in Hall.
  specialize (Hall c (command_bytes_complete c Hc)).
  unfold frame_bytes_check in Hall.
  destruct (frame_of_command_byte c) as [frame |]; [| discriminate].
  destruct (frame_byte 0 frame) as [b0 |] eqn:Hb0; [| discriminate].
  destruct (frame_byte 1 frame) as [b1 |] eqn:Hb1; [| discriminate].
  destruct (frame_byte 2 frame) as [b2 |] eqn:Hb2; [| discriminate].
  destruct (frame_byte 3 frame) as [b3 |] eqn:Hb3; [| discriminate].
  apply andb_true_iff in Hall as [Hall Hsum].
  apply andb_true_iff in Hall as [H0 H1].
  apply Z.eqb_eq in H0, H1. subst b0 b1.
  apply Bool.eqb_prop in Hsum.
  exists frame, b2, b3. repeat split; trivial.
  - intros Heq. apply Z.eqb_eq in Heq. rewrite Hsum in Heq.
    apply orb_true_iff in Heq as [Hlt | Hodd]; [left | right]; trivial.
    now apply Z.ltb_lt.
  - intros Hcase. apply Z.eqb_eq. rewrite Hsum. apply orb_true_iff.
    destruct Hcase as [Hlt | Hodd]; [left | right]; trivial.
    now apply Z.ltb_lt.
Qed.

(** X1: the length check rejects exactly the command numbers at or above
    2^32 and at or below -2^31; the binary numeral of a negative number
    keeps one character of its prefix, so the lower limit is one bit
    short. *)
Theorem X1_rejected_command_numbers
  (n : Z) (Hn : n <= - 2 ^ 31 \/ 2 ^ 32 <= n) :
  generate_request_message n = Raise ValueError_command_too_long.
Proof.
  unfold generate_request_message. cbv zeta.
  rewrite length_check_fires.
  destruct (Z.leb_spec (2 ^ 32) n); [reflexivity |].
  destruct (Z.leb_spec n (- 2 ^ 31)); [reflexivity | lia].
Qed.

Lemma X1_witness :
  generate_request_message (2 ^ 32) = Raise ValueError_command_too_long /\
  generate_request_message (- 2 ^ 31) = Raise ValueError_command_too_long.
Proof.
  split; apply X1_rejected_command_numbers; [right | left];
    vm_compute; discriminate.
Defined.

(** X2: every command number between -2^31 and 2^32 (exclusive) is
    accepted, negative ones included, and its frame is the frame of the
    number reduced modulo 256. *)
Theorem X2_accepted_command_numbers_are_truncated
  (n : Z) (Hn : accepted n) :
  returns (generate_request_message n) /\
  generate_request_message n = generate_request_message (n mod 256).
Proof.
  pose proof (Z.mod_pos_bound n 256 eq_refl) as Hmod.
  assert (Hacc : accepted (n mod 256)).
  { unfold accepted. change (2 ^ 31) with 2147483648.
    change (2 ^ 32) with 4294967296. lia. }
  rewrite !generate_request_message_accepted by trivial.
  rewrite !command_byte_mod, Z.mod_mod by lia.
  split; [| reflexivity].
  destruct (frame_of_command_byte_facts _ Hmod) as [frame [Hframe _]].
  now exists frame.
Qed.

Lemma X2_witness :
  generate_request_message (-1) = generate_request_message 0xFF /\
  generate_request_message 0x11F = generate_request_message 0x1F.
Proof.
  split.
  - apply (X2_accepted_command_numbers_are_truncated (-1)).
    unfold accepted. vm_compute. split; reflexivity.
  - apply (X2_accepted_command_numbers_are_truncated 0x11F).
    unfold accepted. vm_compute. split; reflexivity.
Defined.

(** X3: whenever a frame is returned it has exactly 32 characters, all 0
    or 1, and its first two bytes are the tag RQ (0x52, 0x51): the carry of
    the checksum sum never reaches the tag. *)
Theorem X3_frame_shape_and_tag
  (n : Z) (Hn : accepted n) :
  exists frame,
    generate_request_message n = Ok frame /\
    len frame = 32 /\
    binary frame = true /\
    frame_byte 0 frame = Ok 0x52 /\
    frame_byte 1 frame = Ok 0x51.
Proof.
  rewrite generate_request_message_accepted by trivial.
  destruct (frame_of_command_byte_facts _ (command_byte_range n))
    as [frame [Hframe [Hlen [Hbin _]]]].
  destruct (frame_bytes_facts _ (command_byte_range n))
    as [frame' [b2 [b3 [Hframe' [Hb0 [Hb1 _]]]]]].
  rewrite Hframe in Hframe'. injection Hframe' as <-.
  exists frame. auto.
Qed.

Lemma X3_witness :
  exists frame,
    generate_request_message (-5) = Ok frame /\
    len frame = 32 /\
    frame_byte 0 frame = Ok 0x52.
Proof.
  destruct (X3_frame_shape_and_tag (-5))
    as [frame [Hframe [Hlen [_ [Hb0 _]]]]].
  - unfold accepted. vm_compute. split; reflexivity.
  - exists frame. auto.
Defined.

(** X4: two accepted command numbers give the same frame exactly when they
    agree on their low 8 bits, so the command byte can be recovered from
    the frame. *)
Theorem X4_same_frame_iff_same_low_byte
  (n m : Z) (Hn : accepted n) (Hm : accepted m) :
  generate_request_message n = generate_request_message m
  <-> Z.land n 0xFF = Z.land m 0xFF.
Proof.
  rewrite !generate_request_message_accepted by trivial.
  split; [| now intros ->].
  intros Heq.
  pose proof (command_byte_range n) as Hcn.
  pose proof (command_byte_range m) as Hcm.
  destruct (frame_of_command_byte_facts _ Hcn)
    as [fn [Hfn [_ [_ [_ [_ [Hn3 _]]]]]]].
  destruct (frame_of_command_byte_facts _ Hcm)
    as [fm [Hfm [_ [_ [_ [_ [Hm3 _]]]]]]].
  rewrite Hfn, Hfm in Heq. injection Heq as ->.
  assert (Hsum : Z.land (0x52 + 0x51 + Z.land n 0xFF) 0xFF
                 = Z.land (0x52 + 0x51 + Z.land m 0xFF) 0xFF)
    by congruence.
  rewrite !(command_byte_mod (_ + _)) in Hsum.
  set (cn := Z.land n 0xFF) in *. set (cm := Z.land m 0xFF) in *.
  pose proof (Z.div_mod (0x52 + 0x51 + cn) 256 ltac:(lia)).
  pose proof (Z.div_mod (0x52 + 0x51 + cm) 256 ltac:(lia)).
  pose proof (Z.mod_pos_bound (0x52 + 0x51 + cn) 256 eq_refl).
  lia.
Qed.

Lemma X4_witness :
  generate_request_message 0x1F <> generate_request_message 0x5E.
Proof.
  intros Heq.
  apply (X4_same_frame_iff_same_low_byte 0x1F 0x5E) in Heq.
  - vm_compute in Heq. discriminate Heq.
  - unfold accepted. vm_compute. split; reflexivity.
  - unfold accepted. vm_compute. split; reflexivity.
Defined.

(** X5: the checksum byte of a returned frame equals the sum of the three
    bytes that precede it in the frame, truncated to 8 bits, exactly when
    the command byte is below 0x5D or odd; for an even command byte from
    0x5E on the frame does not pass its own checksum. *)
Theorem X5_checksum_matches_frame_bytes
  (n : Z) (Hn : accepted n) :
  exists frame b2 b3,
    generate_request_message n = Ok frame /\
    frame_byte 2 frame = Ok b2 /\
    frame_byte 3 frame = Ok b3 /\
    (b3 = Z.land (0x52 + 0x51 + b2) 0xFF
     <-> Z.land n 0xFF < 0x5D \/ Z.odd (Z.land n 0xFF) = true).
Proof.
  rewrite generate_request_message_accepted by trivial.
  destruct (frame_bytes_facts _ (command_byte_range n))
    as [frame [b2 [b3 [Hframe [_ [_ [Hb2 [Hb3 Hiff]]]]]]]].
  exists frame, b2, b3. auto.
Qed.

Lemma X5_witness :
  exists frame,
    generate_request_message 0x5E = Ok frame /\
    frame_byte 2 frame = Ok 0x5F /\
    frame_byte 3 frame = Ok 0x01 /\
    0x01 <> Z.land (0x52 + 0x51 + 0x5F) 0xFF.
Proof.
  destruct (X5_checksum_matches_frame_bytes 0x5E)
    as [frame [b2 [b3 [Hframe [Hb2 [Hb3 Hiff]]]]]].
  - unfold accepted. vm_compute. split; reflexivity.
  - exists frame. vm_compute in Hframe. injection Hframe as <-.
    vm_compute in Hb2, Hb3. injection Hb2 as <-. injection Hb3 as <-.
    repeat split. vm_compute. discriminate.
Defined.

(** ** Further properties of the response parser *)

Lemma int2_digits_nonneg s :
  forall acc v, 0 <= acc -> int2_digits acc s = Ok v -> 0 <= v.
Proof.
  induction s as [| c s IH]; intros acc v Hacc Hv; cbn [int2_digits] in Hv.
  - injection Hv as <-. exact Hacc.
  - unfold bit_of_ascii in Hv.
    destruct (Ascii.eqb c "0"); [eapply IH; [| exact Hv]; lia |].
    destruct (Ascii.eqb c "1"); [eapply IH; [| exact Hv]; lia |].
    discriminate Hv.
Qed.

Lemma int_base2_nonneg s v : int_base2 s = Ok v -> 0 <= v.
Proof.
  destruct s as [| c s]; [discriminate |].
  unfold int_base2. apply int2_digits_nonneg. lia.
Qed.

Lemma fold_chars_upper s :
  forall acc,
    fold_left (fun a c => 2 * a + char_bit c) s acc < (acc + 1) * 2 ^ len s.
Proof.
  induction s as [| c s IH]; intros acc; cbn [fold_left].
  - change (len []) with 0. lia.
  - specialize (IH (2 * acc + char_bit c)).
    pose proof (char_bit_range c) as Hc. pose proof (len_nonneg s) as Hs.
    rewrite len_cons, Z.pow_add_r by lia. change (2 ^ 1) with 2.
    assert (0 < 2 ^ len s) by (apply Z.pow_pos_nonneg; lia).
    nia.
Qed.

Lemma unsigned_of_chars_upper s : unsigned_of_chars s < 2 ^ len s.
Proof.
  pose proof (fold_chars_upper s 0) as H. unfold unsigned_of_chars. lia.
Qed.

Lemma declared_length_range frame : 0 <= declared_length frame < 65536.
Proof.
  unfold declared_length. split; [apply unsigned_of_chars_nonneg |].
  pose proof (unsigned_of_chars_upper (slice 24 40 frame)) as Hup.
  assert (Hlen : 0 <= len (slice 24 40 frame) <= 16).
  { rewrite len_slice by lia. lia. }
  assert (2 ^ len (slice 24 40 frame) <= 2 ^ 16)
    by (apply Z.pow_le_mono_r; lia).
  change (2 ^ 16) with 65536 in *. lia.
Qed.

Lemma map_result_digits s :
  map_result int_of_char s
  = if forallb digit_char s then Ok (map digit_value s)
    else Raise ValueError_invalid_literal.
Proof.
  induction s as [| c s IH]; cbn [map_result forallb map]; [reflexivity |].
  unfold int_of_char at 1. fold (digit_char c). fold (digit_value c).
  destruct (digit_char c); cbn [bind andb]; [| reflexivity].
  rewrite IH. now destruct (forallb digit_char s).
Qed.

Lemma map_result_len {A B : Type} (f : A -> result B) s :
  forall arr, map_result f s = Ok arr -> len arr = len s.
Proof.
  induction s as [| x s IH]; intros arr Harr; cbn [map_result] in Harr.
  - now injection Harr as <-.
  - destruct (f x) as [y |]; [| discriminate]. cbn [bind] in Harr.
    destruct (map_result f s) as [ys |]; [| discriminate].
    cbn [bind] in Harr. injection Harr as <-.
    rewrite !len_cons. f_equal. now apply IH.
Qed.

(** X6: the parser never looks at the first 24 characters of a frame: two
    frames that differ only in their tag and echoed command byte are parsed
    alike, whatever those 24 characters are. *)
Theorem X6_header_is_not_inspected
  (header header' rest : str)
  (Hheader : len header = 24) (Hheader' : len header' = 24)
  (Hfield : binary (slice 0 16 rest) = true) :
  parse_din_status_response (header ++ rest)
  = parse_din_status_response (header' ++ rest).
Proof.
  unfold parse_din_status_response.
  rewrite !(slice_app_skip _ rest 24 40) by lia.
  rewrite Hheader, Hheader'.
  destruct (int_base2 (slice (24 - 24) (40 - 24) rest)) as [N |] eqn:HN;
    [| reflexivity].
  apply int_base2_nonneg in HN. cbn [bind].
  rewrite !(slice_app_skip _ rest 40) by lia.
  now rewrite Hheader, Hheader'.
Qed.

Lemma X6_witness :
  parse_din_status_response
    (lit "XXXXXXXXXXXXXXXXXXXXXXXX" ++ lit "000000000000000110101010")
  = Ok [1; 0; 1; 0; 1; 0; 1; 0].
Proof.
  rewrite (X6_header_is_not_inspected
             (lit "XXXXXXXXXXXXXXXXXXXXXXXX")
             (lit "010100100101001100011111")
             (lit "000000000000000110101010"));
    reflexivity.
Defined.

(** X7: on a frame of ASCII characters whose length field is a binary
    numeral, the parser returns exactly when every character of the payload
    slice is one of the digits 0 to 9, and then yields the value of each
    digit, 2 to 9 included; any other ASCII character in the slice makes it
    raise a ValueError.  Frames with non-ASCII characters are not covered. *)
Theorem X7_payload_characters
  (frame : str)
  (Hascii : ascii_only frame = true)
  (Hlen : 25 <= len frame)
  (Hfield : binary (slice 24 40 frame) = true) :
  parse_din_status_response frame
  = if forallb digit_char (slice 40 (40 + declared_length frame * 8) frame)
    then Ok (map digit_value
               (slice 40 (40 + declared_length frame * 8) frame))
    else Raise ValueError_invalid_literal.
Proof.
  unfold parse_din_status_response.
  rewrite int_base2_binary; trivial.
  - cbn [bind]. fold (declared_length frame).
    rewrite map_result_digits.
    now destruct (forallb digit_char _).
  - rewrite len_slice by lia. lia.
Qed.

Lemma X7_witness :
  parse_din_status_response
    (lit "0101001001010011000111110000000000000001" ++ lit "10203040")
  = Ok [1; 0; 2; 0; 3; 0; 4; 0] /\
  parse_din_status_response
    (lit "0101001001010011000111110000000000000001" ++ lit "1010x010")
  = Raise ValueError_invalid_literal.
Proof.
  split.
  - rewrite X7_payload_characters;
      [reflexivity | reflexivity | | reflexivity].
    vm_compute. discriminate.
  - rewrite X7_payload_characters;
      [reflexivity | reflexivity | | reflexivity].
    vm_compute. discriminate.
Defined.

(** X8: the length field has 16 bits, so a returned array never has more
    than 8 * 65535 = 524280 elements, however long the frame is. *)
Theorem X8_result_length_bound
  (frame : str) (arr : list Z)
  (Hfield : binary (slice 24 40 frame) = true)
  (Hparse : parse_din_status_response frame = Ok arr) :
  len arr <= 8 * declared_length frame /\ len arr <= 524280.
Proof.
  pose proof (declared_length_range frame) as HN.
  unfold parse_din_status_response in Hparse.
  destruct (Z_le_gt_dec (len (slice 24 40 frame)) 0) as [Hempty | Hfull].
  - rewrite int_base2_empty in Hparse; [discriminate |].
    pose proof (len_nonneg (slice 24 40 frame)). lia.
  - rewrite int_base2_binary in Hparse by (trivial; lia).
    cbn [bind] in Hparse. fold (declared_length frame) in Hparse.
    destruct (map_result int_of_char _) as [arr' |] eqn:Harr;
      [| discriminate].
    cbn [bind] in Hparse. injection Hparse as <-.
    apply map_result_len in Harr. rewrite Harr, len_slice by lia. lia.
Qed.

Lemma X8_witness :
  len [1; 0; 1; 0; 1; 0; 1; 0] <= 8 * 1.
Proof.
  apply (X8_result_length_bound
           (lit "01010010010100110001111100000000000000011010101011111111"));
    reflexivity.
Defined.

Lemma slice_firstn {A : Type} (s : list A) lo hi (k : nat) :
  0 <= lo <= hi -> lo <= Z.of_nat k ->
  slice lo hi (firstn k s)
  = firstn (k - Z.to_nat lo) (slice lo hi s).
Proof.
  intros Hlo Hk. rewrite !slice_nonneg by trivial.
  rewrite skipn_firstn_comm, !firstn_firstn.
  f_equal. lia.
Qed.

(** X9: cutting a frame short, anywhere from character 40 on, yields a
    prefix of what the whole frame yields: the elements that are returned
    for a truncated frame are never wrong, only missing. *)
Theorem X9_truncated_frame_gives_prefix
  (frame : str) (k : nat)
  (Hb : binary frame = true)
  (Hlen : 40 <= len frame)
  (Hk : (40 <= k)%nat) :
  exists arr,
    parse_din_status_response frame = Ok arr /\
    parse_din_status_response (firstn k frame) = Ok (firstn (k - 40) arr).
Proof.
  assert (Hfield : slice 24 40 (firstn k frame) = slice 24 40 frame).
  { rewrite slice_firstn by lia. apply firstn_all2.
    pose proof (len_slice 24 40 frame ltac:(lia)) as Hs.
    unfold len in Hs at 1. lia. }
  eexists. split.
  - apply parse_din_status_response_binary; trivial. lia.
  - rewrite parse_din_status_response_binary.
    + unfold declared_length. rewrite Hfield.
      pose proof (unsigned_of_chars_nonneg (slice 24 40 frame)).
      rewrite slice_firstn by lia.
      now rewrite firstn_map.
    + now apply binary_firstn.
    + unfold len in *. rewrite length_firstn. lia.
Qed.

Lemma X9_witness :
  parse_din_status_response
    (firstn 43
       (lit "01010010010100110001111100000000000000011010101011111111"))
  = Ok [1; 0; 1].
Proof.
  destruct (X9_truncated_frame_gives_prefix
              (lit "01010010010100110001111100000000000000011010101011111111")
              43 eq_refl)
    as [arr [Harr Hcut]].
  - vm_compute. discriminate.
  - repeat constructor.
  - rewrite Hcut. vm_compute in Harr. now injection Harr as <-.
Defined.

(** X10: the parser followed by the interpreter.  With m = min(8N, L - 40)
    the number of payload bits actually present: for 1 <= m <= 32 the
    result is the two's-complement value of those m bits; for m = 0 (a
    declared length of 0, or no payload at all) and for m > 32 (five
    payload bytes or more) the interpreter raises a ValueError. *)
Theorem X10_parse_then_interpret
  (frame : str)
  (Hb : binary frame = true)
  (Hlen : 40 <= len frame) :
  let m := Z.min (8 * declared_length frame) (len frame - 40) in
  let payload := slice 40 (40 + declared_length frame * 8) frame in
  (1 <= m <= 32 ->
   parse_then_interpret frame
   = Ok (twos_complement (map char_bit payload))) /\
  (m = 0 ->
   parse_then_interpret frame = Raise ValueError_invalid_literal) /\
  (32 < m ->
   parse_then_interpret frame = Raise ValueError_array_too_long).
Proof.
  intros m payload.
  pose proof (declared_length_range frame) as HN.
  assert (Hm : len (map char_bit payload) = m).
  { unfold payload, m. rewrite len_map, len_slice by lia. lia. }
  unfold parse_then_interpret.
  rewrite parse_din_status_response_binary by (trivial; lia).
  cbn [bind]. fold payload.
  split; [| split]; intros Hcase.
  - apply din_status_value; [apply char_bit_is_bit | lia].
  - destruct (map char_bit payload) as [| b l]; [reflexivity |].
    rewrite len_cons in Hm. pose proof (len_nonneg l). lia.
  - unfold din_status_to_32bit_signed_integer.
    destruct (Z.ltb_spec 32 (len (map char_bit payload))); [reflexivity | lia].
Qed.

Lemma X10_witness :
  parse_then_interpret
    (lit "01010010010100110001111100000000000000011010101011111111")
  = Ok (-86).
Proof.
  destruct (X10_parse_then_interpret
              (lit "01010010010100110001111100000000000000011010101011111111")
              eq_refl)
    as [Hvalue _].
  - vm_compute. discriminate.
  - rewrite Hvalue; [reflexivity |].
    vm_compute. split; discriminate.
Defined.

(** ** Further properties of the status interpreter *)

Lemma bits01_invert l : bits01 l = true -> bits01 (invert l) = true.
Proof.
  induction l as [| b l IH]; intros Hl; [reflexivity |].
  apply bits01_cons in Hl as [Hb Hl].
  unfold invert. cbn [map]. apply bits01_cons. split; [| now apply IH].
  destruct (bit_int_cases b Hb); subst b; reflexivity.
Qed.

Lemma unsigned_of_bits_invert l :
  bits01 l = true ->
  unsigned_of_bits (invert l) = 2 ^ len l - 1 - unsigned_of_bits l.
Proof.
  induction l as [| b l IH]; intros Hl; [reflexivity |].
  apply bits01_cons in Hl as [Hb Hl]. specialize (IH Hl).
  unfold invert in *. cbn [map].
  rewrite !unsigned_of_bits_cons, len_map, IH, len_cons.
  rewrite Z.pow_add_r by (pose proof (len_nonneg l); lia).
  change (2 ^ 1) with 2. lia.
Qed.

Lemma unsigned_of_bits_inj a :
  forall b,
    bits01 a = true -> bits01 b = true -> len a = len b ->
    unsigned_of_bits a = unsigned_of_bits b -> a = b.
Proof.
  induction a as [| x a IH]; intros [| y b] Ha Hb Hlen Heq.
  - reflexivity.
  - rewrite len_cons in Hlen. change (len []) with 0 in Hlen.
    pose proof (len_nonneg b). lia.
  - rewrite len_cons in Hlen. change (len []) with 0 in Hlen.
    pose proof (len_nonneg a). lia.
  - apply bits01_cons in Ha as [Hx Ha]. apply bits01_cons in Hb as [Hy Hb].
    rewrite !len_cons in Hlen. assert (Hlen' : len a = len b) by lia.
    rewrite !unsigned_of_bits_cons, Hlen' in Heq.
    pose proof (unsigned_of_bits_range a Ha) as Hra.
    pose proof (unsigned_of_bits_range b Hb) as Hrb.
    rewrite Hlen' in Hra.
    destruct (bit_int_cases x Hx), (bit_int_cases y Hy); subst x y;
      try lia; f_equal; apply IH; trivial; lia.
Qed.

(** X11: on an array over {0,1} the interpreter returns a value exactly
    when the array has between 1 and 32 elements; the empty array and every
    array of more than 32 elements raise a ValueError. *)
Theorem X11_interpreter_domain
  (bits : list Z) (Hb : bits01 bits = true) :
  (returns (din_status_to_32bit_signed_integer bits)
   <-> 1 <= len bits <= 32) /\
  (len bits = 0 ->
   din_status_to_32bit_signed_integer bits
   = Raise ValueError_invalid_literal) /\
  (32 < len bits ->
   din_status_to_32bit_signed_integer bits
   = Raise ValueError_array_too_long).
Proof.
  assert (Hempty : len bits = 0 ->
                   din_status_to_32bit_signed_integer bits
                   = Raise ValueError_invalid_literal).
  { destruct bits as [| b l]; [reflexivity |].
    rewrite len_cons. pose proof (len_nonneg l). lia. }
  assert (Hlong : 32 < len bits ->
                  din_status_to_32bit_signed_integer bits
                  = Raise ValueError_array_too_long).
  { intros H. unfold din_status_to_32bit_signed_integer.
    destruct (Z.ltb_spec 32 (len bits)); [reflexivity | lia]. }
  split; [split | split; trivial].
  - intros [v Hv]. pose proof (len_nonneg bits).
    destruct (Z.eq_dec (len bits) 0) as [H0 | H0];
      [rewrite (Hempty H0) in Hv; discriminate |].
    destruct (Z_lt_le_dec 32 (len bits)) as [H32 | H32];
      [rewrite (Hlong H32) in Hv; discriminate | lia].
  - intros Hw. exists (twos_complement bits). now apply din_status_value.
Qed.

Lemma X11_witness :
  returns (din_status_to_32bit_signed_integer [1; 1; 1]) /\
  din_status_to_32bit_signed_integer (repeat 0 33%nat)
  = Raise ValueError_array_too_long.
Proof.
  split.
  - apply (X11_interpreter_domain [1; 1; 1] eq_refl).
    vm_compute. split; discriminate.
  - apply (X11_interpreter_domain (repeat 0 33%nat) eq_refl).
    reflexivity.
Defined.

(** X12: repeating the leading bit of an array does not change the value:
    the interpreter respects sign extension, so a status of fewer than 32
    contacts reads the same at any longer width it is sign-extended to. *)
Theorem X12_sign_extension_invariance
  (b : Z) (rest : list Z)
  (Hb : bits01 (b :: rest) = true)
  (Hlen : len rest <= 30) :
  din_status_to_32bit_signed_integer (b :: b :: rest)
  = din_status_to_32bit_signed_integer (b :: rest).
Proof.
  pose proof (len_nonneg rest) as Hpos.
  assert (Hbb : bits01 (b :: b :: rest) = true).
  { apply bits01_cons. split; trivial. now apply bits01_cons in Hb. }
  rewrite !din_status_value by (trivial; rewrite !len_cons; lia).
  f_equal. unfold twos_complement. cbn [hd].
  rewrite !unsigned_of_bits_cons, !len_cons.
  rewrite !Z.pow_add_r by lia. change (2 ^ 1) with 2.
  apply bits01_cons in Hb as [Hb0 _].
  destruct (bit_int_cases b Hb0); subst b.
  - change (0 =? 1) with false. cbv iota. lia.
  - change (1 =? 1) with true. cbv iota. lia.
Qed.

Lemma X12_witness :
  din_status_to_32bit_signed_integer [1; 1; 0; 1] = Ok (-3) /\
  din_status_to_32bit_signed_integer [1; 0; 1] = Ok (-3).
Proof.
  assert (H : din_status_to_32bit_signed_integer [1; 1; 0; 1]
              = din_status_to_32bit_signed_integer [1; 0; 1]).
  { apply (X12_sign_extension_invariance 1 [0; 1] eq_refl).
    vm_compute. discriminate. }
  rewrite H. split; reflexivity.
Defined.

(** X13: inverting every bit of an array turns the value v into -v - 1,
    the two's-complement identity for bitwise NOT. *)
Theorem X13_inverted_bits
  (bits : list Z)
  (Hb : bits01 bits = true)
  (Hw : 1 <= len bits <= 32) :
  exists v,
    din_status_to_32bit_signed_integer bits = Ok v /\
    din_status_to_32bit_signed_integer (invert bits) = Ok (- v - 1).
Proof.
  exists (twos_complement bits). split; [now apply din_status_value |].
  assert (Hlen : len (invert bits) = len bits) by apply len_map.
  rewrite din_status_value
    by (try apply bits01_invert; trivial; rewrite Hlen; lia).
  f_equal. unfold twos_complement.
  rewrite unsigned_of_bits_invert, Hlen by trivial.
  destruct bits as [| b l]; [change (len []) with 0 in Hw; lia |].
  apply bits01_cons in Hb as [Hb _]. unfold invert. cbn [map hd].
  destruct (bit_int_cases b Hb); subst b.
  - change (1 - 0 =? 1) with true. change (0 =? 1) with false.
    cbv iota. lia.
  - change (1 - 1 =? 1) with false. change (1 =? 1) with true.
    cbv iota. lia.
Qed.

Lemma X13_witness :
  din_status_to_32bit_signed_integer [0; 1; 0; 1] = Ok 5 /\
  din_status_to_32bit_signed_integer [1; 0; 1; 0] = Ok (-6).
Proof.
  destruct (X13_inverted_bits [0; 1; 0; 1] eq_refl) as [v [Hv Hinv]].
  - vm_compute. split; discriminate.
  - split; [reflexivity |].
    change (invert [0; 1; 0; 1]) with [1; 0; 1; 0] in Hinv.
    rewrite Hinv. vm_compute in Hv. now injection Hv as <-.
Defined.

(** X14: at a fixed width between 1 and 32 the interpreter loses no
    information: two arrays over {0,1} of the same length have the same
    value only when they are the same array. *)
Theorem X14_interpreter_injective
  (a b : list Z)
  (Ha : bits01 a = true) (Hb : bits01 b = true)
  (Hlen : len a = len b)
  (Hw : 1 <= len a <= 32) :
  din_status_to_32bit_signed_integer a = din_status_to_32bit_signed_integer b
  <-> a = b.
Proof.
  split; [| now intros ->].
  rewrite !din_status_value by (trivial; lia).
  intros Heq. injection Heq as Heq.
  apply unsigned_of_bits_inj; trivial.
  destruct (twos_complement_range a Ha (proj1 Hw)) as [_ <-].
  destruct (twos_complement_range b Hb ltac:(lia)) as [_ <-].
  now rewrite Heq, Hlen.
Qed.

Lemma X14_witness :
  din_status_to_32bit_signed_integer [0; 1; 1]
  <> din_status_to_32bit_signed_integer [1; 1; 1].
Proof.
  intros Heq.
  apply (X14_interpreter_injective [0; 1; 1] [1; 1; 1] eq_refl eq_refl)
    in Heq.
  - discriminate Heq.
  - reflexivity.
  - vm_compute. split; discriminate.
Defined.
